(** * Prepaid Electricity Life Estimator

    A shallow embedding of [Prepaid_Electricity_Life_Estimator.py] and the
    properties of its four numerical routines: the daily-usage aggregator
    [compute_daily_kwh], Newton's divided-difference interpolation
    ([newton_divided_diff], [newton_interpolation]), the bisection root
    finder [estimate_days_remaining] and [golden_section_search].

    Number model.  Python's [float] and [int] values are embedded as exact
    rationals [Q]; equality of numbers is [Qeq] ([==]).  Every arithmetic
    operation of the source is therefore read without rounding error, and
    [math.sqrt(5)] is replaced by the binary64 value CPython computes for
    it.  Python exceptions are the constructors of [exn]; a function that
    can raise returns a [result]. The two [while] loops are embedded with an
    explicit iteration budget and return [None] when it is exhausted. *)

From Stdlib Require Import String.
From Stdlib Require Import QArith Qround Qabs Lqa ZArith Lia List Bool.
Import ListNotations.
Open Scope Q_scope.

(** ** Python outcomes *)

Inductive exn : Set :=
| IndexError
| ZeroDivisionError
| ValueError
| OverflowError.

Inductive result (A : Type) : Type :=
| Ok (a : A)
| Raise (e : exn).

Arguments Ok {A} a.
Arguments Raise {A} e.

Definition bind {A B : Type} (m : result A) (k : A -> result B) : result B :=
  match m with
  | Ok a => k a
  | Raise e => Raise e
  end.

Notation "x <- m ;; k" := (bind m (fun x => k))
  (at level 61, m at next level, right associativity).

(** [l[i]] for a non-negative index. *)
Definition getitem {A : Type} (l : list A) (i : nat) : result A :=
  match nth_error l i with
  | Some v => Ok v
  | None => Raise IndexError
  end.

(** [l[-1]]. *)
Definition get_last {A : Type} (l : list A) : result A :=
  match l with
  | [] => Raise IndexError
  | _ :: _ => getitem l (length l - 1)
  end.

Fixpoint replace_nth {A : Type} (l : list A) (i : nat) (v : A) : list A :=
  match l, i with
  | [], _ => []
  | _ :: t, O => v :: t
  | h :: t, S i' => h :: replace_nth t i' v
  end.

(** [l[i] = v] for a non-negative index: the updated list, or [IndexError]. *)
Definition setitem {A : Type} (l : list A) (i : nat) (v : A) : result (list A) :=
  if (i <? length l)%nat then Ok (replace_nth l i v) else Raise IndexError.

(** [p / q] on numbers. *)
Definition py_div (p q : Q) : result Q :=
  if Qeq_bool q 0 then Raise ZeroDivisionError else Ok (p / q).

(** [for i in idx: body], threading the loop-carried state. *)
Fixpoint for_each {S : Type} (idx : list nat) (body : nat -> S -> result S)
         (s : S) : result S :=
  match idx with
  | [] => Ok s
  | i :: rest => s' <- body i s ;; for_each rest body s'
  end.

(** [range(lo, hi)] with [lo <= hi], ascending. *)
Definition range_up (lo hi : nat) : list nat := seq lo (hi - lo).

(** [range(hi - 1, lo - 1, -1)]: the indices [hi-1, hi-2, ..., lo]. *)
Definition range_down (hi lo : nat) : list nat := rev (seq lo (hi - lo)).

(** [sum(xs)]: a left fold from the integer [0]. *)
Definition py_sum (xs : list Q) : Q := fold_left Qplus xs 0.

(** [round(x, 2)]: the multiple of [1/100] nearest to [x], ties to the even
    multiple. *)
Definition round_half_even (x : Q) : Z :=
  let fl := Qfloor x in
  match Qcompare (x - inject_Z fl) (1 # 2) with
  | Lt => fl
  | Gt => (fl + 1)%Z
  | Eq => if Z.even fl then fl else (fl + 1)%Z
  end.

Definition py_round2 (x : Q) : Q := inject_Z (round_half_even (x * 100)) / 100.

(** [max(0, x)]: [x] replaces the first argument only when it is greater. *)
Definition py_max0 (x : Q) : Q := if Qlt_le_dec 0 x then x else 0.

(** ** Sample input data *)

Definition appliance : Type := string * Q * Q.

Definition BALANCE_GHS : Q := 50.
Definition COST_PER_KWH : Q := 1.6.

Definition APPLIANCES : list appliance :=
  [ ("Fan"%string, 70, 8);
    ("Fridge"%string, 200, 24);
    ("Bulb"%string, 10, 6);
    ("TV"%string, 100, 5) ].

Definition HISTORICAL_DAYS : list Q := [1; 2; 3; 4; 5].
Definition HISTORICAL_USAGE : list Q := [5.8; 6.0; 6.1; 6.3; 6.4].

(** [l[-k:]] *)
Definition last_k {A : Type} (k : nat) (l : list A) : list A :=
  skipn (length l - k) l.

Definition x_used : list Q := last_k 3 HISTORICAL_DAYS.
Definition y_used : list Q := last_k 3 HISTORICAL_USAGE.

(** ** Numerical method 1: daily usage *)

Definition compute_daily_kwh (appliances : list appliance) : Q :=
  py_sum (map (fun '(_, power, hours) => (power * hours) / 1000) appliances).




(** An appliance the specification calls invalid: negative power or hours. *)
Definition invalid_appliance (a : appliance) : bool :=
  let '(_, power, hours) := a in
  match Qlt_le_dec power 0, Qlt_le_dec hours 0 with
  | right _, right _ => false
  | _, _ => true
  end.

(** ** Numerical method 2: Newton's divided-difference interpolation *)

(** The assignment
    [coef[i] = (coef[i] - coef[i - 1]) / (x[i] - x[i - j])].  The loops
    only reach it with [1 <= j <= i], so no index is negative. *)
Definition divided_diff_update (x : list Q) (j i : nat) (coef : list Q)
  : result (list Q) :=
  ci <- getitem coef i ;;
  ci1 <- getitem coef (i - 1) ;;
  xi <- getitem x i ;;
  xij <- getitem x (i - j) ;;
  q <- py_div (ci - ci1) (xi - xij) ;;
  setitem coef i q.

(** [coef = list(y)] is a fresh copy that the loops overwrite in place;
    here, the list threaded through [for_each]. *)
Definition newton_divided_diff (x y : list Q) : result (list Q) :=
  let n := length x in
  let coef := y in
  for_each (range_up 1 n)
    (fun j coef =>
       for_each (range_down n j) (fun i coef => divided_diff_update x j i coef) coef)
    coef.

(** The assignment [result = result * (target_x - x_data[i]) + coef[i]]. *)
Definition horner_update (x_data coef : list Q) (target_x : Q) (i : nat) (r : Q)
  : result Q :=
  xi <- getitem x_data i ;;
  ci <- getitem coef i ;;
  Ok (r * (target_x - xi) + ci).

(** The body of [newton_interpolation] up to its [return]: the value of
    the polynomial before clamping and rounding. *)
Definition newton_horner (x_data y_data : list Q) (target_x : Q) : result Q :=
  coef <- newton_divided_diff x_data y_data ;;
  let n := length coef in
  r <- get_last coef ;;
  for_each (range_down (n - 1) 0) (horner_update x_data coef target_x) r.

Definition newton_interpolation (x_data y_data : list Q) (target_x : Q)
  : result Q :=
  r <- newton_horner x_data y_data target_x ;;
  Ok (py_max0 (py_round2 r)).

(** ** Numerical method 3: bisection *)

Definition tol : Q := 0.01.

(** One pass through the body of the [while] loop: the next bracket. *)
Definition bisect_step (f : Q -> Q) (a b : Q) : Q * Q :=
  let mid := (a + b) / 2 in
  if Qlt_le_dec (f mid * f a) 0 then (a, mid) else (mid, b).

(** The [while b - a > tol] loop of [estimate_days_remaining]; [fuel] bounds
    the number of times the loop condition is evaluated. The value is the
    final bracket. *)
Fixpoint bisect_loop (fuel : nat) (f : Q -> Q) (a b : Q) : option (Q * Q) :=
  match fuel with
  | O => None
  | S fuel' =>
      if Qlt_le_dec tol (b - a) then
        let '(a, b) := bisect_step f a b in
        bisect_loop fuel' f a b
      else Some (a, b)
  end.

Definition estimate_days_remaining (fuel : nat) (balance_ghs : Q)
           (daily_cost_func : Q -> Q) (max_days : Q) : option Q :=
  let f := fun t => balance_ghs - daily_cost_func t in
  match bisect_loop fuel f 0 max_days with
  | Some (a, b) => Some ((a + b) / 2)
  | None => None
  end.

(** ** Numerical method 4: golden-section search *)

(** The binary64 value of [math.sqrt(5)]. *)
Definition sqrt5 : Q := 629397181890197 # 281474976710656.

Definition gr : Q := (sqrt5 + 1) / 2.

(** One pass through the body of the [while] loop: the next bracket. *)
Definition golden_step (f : Q -> Q) (a b c d : Q) : Q * Q :=
  if Qlt_le_dec (f c) (f d) then (a, d) else (c, b).

(** The [while abs(c - d) > tol] loop; the value is the final [(a, b, c, d)]. *)
Fixpoint golden_loop (fuel : nat) (gr : Q) (f : Q -> Q) (tol a b c d : Q)
  : option (Q * Q * Q * Q) :=
  match fuel with
  | O => None
  | S fuel' =>
      if Qlt_le_dec tol (Qabs (c - d)) then
        let '(a, b) := golden_step f a b c d in
        let c := b - (b - a) / gr in
        let d := a + (b - a) / gr in
        golden_loop fuel' gr f tol a b c d
      else Some (a, b, c, d)
  end.

(** The search with the ratio as a parameter. *)
Definition golden_section_search_with (gr : Q) (fuel : nat) (f : Q -> Q)
           (a b tol : Q) : option Q :=
  let c := b - (b - a) / gr in
  let d := a + (b - a) / gr in
  match golden_loop fuel gr f tol a b c d with
  | Some (a, b, _, _) => Some ((b + a) / 2)
  | None => None
  end.

Definition golden_section_search : nat -> (Q -> Q) -> Q -> Q -> Q -> option Q :=
  golden_section_search_with gr.

(** ** Core logic *)

Definition daily_kwh : Q := compute_daily_kwh APPLIANCES.
Definition daily_cost : Q := daily_kwh * COST_PER_KWH.

(** [[newton_interpolation(x_used, y_used, d) for d in range(6, 11)]] *)
Fixpoint forecast (days : list nat) : result (list Q) :=
  match days with
  | [] => Ok []
  | d :: rest =>
      v <- newton_interpolation x_used y_used (inject_Z (Z.of_nat d)) ;;
      vs <- forecast rest ;;
      Ok (v :: vs)
  end.

Definition forecasted_usage : result (list Q) := forecast (range_up 6 11).

Definition cumulative_cost (t : Q) : Q := daily_cost * t.

Definition estimated_days (fuel : nat) : option Q :=
  estimate_days_remaining fuel BALANCE_GHS cumulative_cost 30.

Definition reduction_to_life (r : Q) : Q :=
  let reduced_daily := daily_kwh * (1 - r) in
  - BALANCE_GHS / (reduced_daily * COST_PER_KWH).

Definition optimal_reduction (fuel : nat) : option Q :=
  golden_section_search fuel reduction_to_life 0.0 0.5 0.01.

(** ** Divided differences and the Newton form

    The mathematical objects the interpolation code computes, over the
    nodes [xs] and the values [ys]. *)

(** [dd xs ys k i] is the divided difference of order [k] on the nodes
    [xs[i], ..., xs[i + k]]. *)
Fixpoint dd (xs ys : list Q) (k i : nat) : Q :=
  match k with
  | O => nth i ys 0
  | S k' =>
      (dd xs ys k' (S i) - dd xs ys k' i) / (nth (i + S k') xs 0 - nth i xs 0)
  end.

(** [omega xs i m t] is the product of [t - xs[i + l]] for [l < m]. *)
Fixpoint omega (xs : list Q) (i m : nat) (t : Q) : Q :=
  match m with
  | O => 1
  | S m' => omega xs i m' t * (t - nth (i + m') xs 0)
  end.

(** The Newton form of degree [k] on the nodes [xs[i], ..., xs[i + k]]. *)
Fixpoint newton_sum (xs ys : list Q) (i k : nat) (t : Q) : Q :=
  match k with
  | O => dd xs ys 0 i
  | S k' => newton_sum xs ys i k' t + dd xs ys (S k') i * omega xs i (S k') t
  end.

(** Entry [i] of the coefficient table once pass [j] of the outer loop is
    complete. *)
Definition table_entry (xs ys : list Q) (j i : nat) : Q :=
  if (i <? j)%nat then dd xs ys i 0 else dd xs ys j (i - j).

(** The coefficient list during pass [j], when the entries at indices
    [i0] and above have been overwritten. *)
Definition table_during (xs ys : list Q) (n j i0 : nat) : list Q :=
  map (fun i => if (i0 <=? i)%nat then table_entry xs ys j i
                else table_entry xs ys (j - 1) i)
      (seq 0 n).

Definition table_after (xs ys : list Q) (n j : nat) : list Q :=
  map (table_entry xs ys j) (seq 0 n).

Fixpoint pairwise_distinct (xs : list Q) : bool :=
  match xs with
  | [] => true
  | h :: t => forallb (fun v => negb (Qeq_bool h v)) t && pairwise_distinct t
  end.


(** ** Shapes of a forecast sequence *)

Fixpoint non_decreasing (l : list Q) : bool :=
  match l with
  | a :: (b :: _) as rest => Qle_bool a b && non_decreasing rest
  | _ => true
  end.

Fixpoint strictly_decreasing (l : list Q) : bool :=
  match l with
  | a :: (b :: _) as rest => negb (Qle_bool a b) && strictly_decreasing rest
  | _ => true
  end.

Definition all_between (lo hi : Q) (l : list Q) : bool :=
  forallb (fun v => Qle_bool lo v && Qle_bool v hi) l.

(** ** Iteration counts and sign changes *)

Definition pow2 (n : nat) : Q := inject_Z (2 ^ Z.of_nat n).



(** ** Calls that can fail, and the forecast polynomial *)

(** [reduction_to_life(r)] as a call: the division raises when the
    reduced usage is zero. *)
Definition call_reduction_to_life (r : Q) : result Q :=
  let reduced_daily := daily_kwh * (1 - r) in
  py_div (- BALANCE_GHS) (reduced_daily * COST_PER_KWH).

(** The quadratic through the three points of the interpolation window,
    [(3, 6.1)], [(4, 6.3)] and [(5, 6.4)]. *)
Definition forecast_poly (t : Q) : Q := - 0.05 * t * t + 0.55 * t + 4.9.

(** * Properties *)

(** ** The daily-usage aggregator *)

Lemma fold_left_Qplus_acc (xs : list Q) (acc : Q) :
  fold_left Qplus xs acc == acc + fold_left Qplus xs 0.
Proof.
  revert acc. induction xs as [|x xs IH]; intro acc; simpl.
  - lra.
  - rewrite (IH (acc + x)), (IH (0 + x)). lra.
Qed.

Lemma compute_daily_kwh_cons (name : string) (power hours : Q)
      (rest : list appliance) :
  compute_daily_kwh ((name, power, hours) :: rest)
  == power * hours / 1000 + compute_daily_kwh rest.
Proof.
  unfold compute_daily_kwh, py_sum. simpl.
  rewrite fold_left_Qplus_acc. lra.
Qed.






(** ** Lists, indices and loops *)

Lemma getitem_map_seq {A : Type} (g : nat -> A) (n i : nat) :
  (i < n)%nat -> getitem (map g (seq 0 n)) i = Ok (g i).
Proof.
  intro Hi. unfold getitem.
  rewrite nth_error_map, nth_error_seq.
  destruct (Nat.ltb_spec i n); [reflexivity | lia].
Qed.

Lemma getitem_nth (l : list Q) (i : nat) :
  (i < length l)%nat -> getitem l i = Ok (nth i l 0).
Proof.
  intro Hi. unfold getitem. rewrite (nth_error_nth' l 0 Hi). reflexivity.
Qed.

Lemma nth_error_replace_nth {A : Type} (l : list A) (i k : nat) (v : A) :
  nth_error (replace_nth l i v) k =
  if (k =? i)%nat then (if (i <? length l)%nat then Some v else None)
  else nth_error l k.
Proof.
  revert i k. induction l as [|h t IH]; intros i k.
  - simpl. destruct (k =? i)%nat; destruct k; reflexivity.
  - destruct i as [|i]; destruct k as [|k]; simpl; try reflexivity.
    rewrite IH. reflexivity.
Qed.

Lemma replace_nth_map_seq {A : Type} (g g' : nat -> A) (n i : nat) :
  (forall k, k <> i -> g' k = g k) ->
  replace_nth (map g (seq 0 n)) i (g' i) = map g' (seq 0 n).
Proof.
  intro Hg. apply nth_error_ext. intro k.
  rewrite nth_error_replace_nth, !nth_error_map, !nth_error_seq.
  rewrite length_map, length_seq.
  destruct (Nat.eqb_spec k i) as [->|Hk].
  - destruct (Nat.ltb_spec i n); reflexivity.
  - destruct (Nat.ltb_spec k n); simpl; [rewrite Hg by exact Hk|]; reflexivity.
Qed.

Lemma for_each_app {S : Type} (l1 l2 : list nat)
      (body : nat -> S -> result S) (s : S) :
  for_each (l1 ++ l2) body s =
  (s' <- for_each l1 body s ;; for_each l2 body s').
Proof.
  revert s. induction l1 as [|i l1 IH]; intro s; simpl.
  - reflexivity.
  - destruct (body i s); simpl; [apply IH | reflexivity].
Qed.

Lemma range_down_S (lo m : nat) :
  rev (seq lo (S m)) = rev (seq (S lo) m) ++ [lo].
Proof. reflexivity. Qed.

Lemma rev_seq_S (lo m : nat) :
  rev (seq lo (S m)) = (lo + m)%nat :: rev (seq lo m).
Proof. rewrite seq_S, rev_app_distr. reflexivity. Qed.

Lemma pairwise_distinct_nth (xs : list Q) :
  pairwise_distinct xs = true ->
  forall i k, (i < k < length xs)%nat -> ~ nth i xs 0 == nth k xs 0.
Proof.
  induction xs as [|h t IH]; intros Hd i k Hik; simpl in *; [lia|].
  apply andb_prop in Hd. destruct Hd as [Hh Ht].
  destruct k as [|k]; [lia|].
  destruct i as [|i].
  - rewrite forallb_forall in Hh.
    assert (Hin : In (nth k t 0) t) by (apply nth_In; lia).
    specialize (Hh _ Hin). apply negb_true_iff in Hh.
    intro Heq. apply Qeq_bool_iff in Heq. congruence.
  - apply IH; [exact Ht | lia].
Qed.

(** ** The divided-difference table *)

Lemma table_entry_high (xs ys : list Q) (j i : nat) :
  (j <= i)%nat -> table_entry xs ys j i = dd xs ys j (i - j).
Proof.
  intro H. unfold table_entry.
  destruct (Nat.ltb_spec i j); [lia | reflexivity].
Qed.

Lemma table_entry_low (xs ys : list Q) (j i : nat) :
  (i <= j)%nat -> table_entry xs ys j i = dd xs ys i 0.
Proof.
  intro H. unfold table_entry.
  destruct (Nat.ltb_spec i j); [reflexivity|].
  replace j with i by lia. rewrite Nat.sub_diag. reflexivity.
Qed.

Lemma table_during_start (xs ys : list Q) (n j : nat) :
  table_during xs ys n (S j) n = table_after xs ys n j.
Proof.
  unfold table_during, table_after. apply map_ext_in. intros i Hi.
  apply in_seq in Hi. destruct (Nat.leb_spec n i); [lia|].
  simpl. rewrite Nat.sub_0_r. reflexivity.
Qed.

Lemma table_during_end (xs ys : list Q) (n j : nat) :
  table_during xs ys n (S j) (S j) = table_after xs ys n (S j).
Proof.
  unfold table_during, table_after. apply map_ext. intro i.
  destruct (Nat.leb_spec (S j) i); [reflexivity|].
  simpl. rewrite Nat.sub_0_r.
  rewrite !table_entry_low by lia. reflexivity.
Qed.

Lemma table_after_0 (xs ys : list Q) :
  table_after xs ys (length ys) 0 = ys.
Proof.
  unfold table_after. apply nth_error_ext. intro i.
  rewrite nth_error_map, nth_error_seq.
  destruct (Nat.ltb_spec i (length ys)) as [Hi|Hi]; simpl.
  - rewrite table_entry_high by lia. simpl. rewrite Nat.sub_0_r.
    symmetry. apply nth_error_nth'. exact Hi.
  - symmetry. apply nth_error_None. exact Hi.
Qed.

Lemma divided_diff_update_table (xs ys : list Q) (j i : nat) :
  pairwise_distinct xs = true ->
  (1 <= j <= i)%nat -> (i < length xs)%nat ->
  divided_diff_update xs j i (table_during xs ys (length xs) j (S i))
  = Ok (table_during xs ys (length xs) j i).
Proof.
  intros Hd Hj Hi. unfold divided_diff_update, table_during.
  rewrite !getitem_map_seq by lia.
  rewrite !getitem_nth by lia. cbn [bind].
  destruct (Nat.leb_spec (S i) i); [lia|].
  destruct (Nat.leb_spec (S i) (i - 1)); [lia|].
  unfold py_div.
  destruct (Qeq_bool (nth i xs 0 - nth (i - j) xs 0) 0) eqn:E.
  - exfalso. apply Qeq_bool_iff in E.
    apply (pairwise_distinct_nth xs Hd (i - j) i); [lia | lra].
  - cbn [bind]. unfold setitem. rewrite length_map, length_seq.
    destruct (Nat.ltb_spec i (length xs)); [|lia].
    f_equal.
    set (g' := fun i0 : nat =>
                 if (i <=? i0)%nat then table_entry xs ys j i0
                 else table_entry xs ys (j - 1) i0).
    match goal with
    | |- replace_nth _ _ ?v = _ => replace v with (g' i)
    end.
    + apply replace_nth_map_seq. intros k Hk. unfold g'. cbv beta.
      destruct (Nat.leb_spec i k); destruct (Nat.leb_spec (S i) k);
        try reflexivity; lia.
    + unfold g'. rewrite Nat.leb_refl.
      destruct j as [|k]; [lia|].
      replace (S k - 1)%nat with k by lia.
      rewrite !table_entry_high by lia.
      cbn [dd].
      replace (i - 1 - k)%nat with (i - S k)%nat by lia.
      replace (i - k)%nat with (S (i - S k)) by lia.
      replace (i - S k + S k)%nat with i by lia.
      reflexivity.
Qed.

Lemma inner_loop_table (xs ys : list Q) (j : nat) :
  pairwise_distinct xs = true ->
  (1 <= j)%nat ->
  forall m i0, (j <= i0)%nat -> (i0 + m <= length xs)%nat ->
    for_each (rev (seq i0 m))
             (fun i coef => divided_diff_update xs j i coef)
             (table_during xs ys (length xs) j (i0 + m))
    = Ok (table_during xs ys (length xs) j i0).
Proof.
  intros Hd Hj. induction m as [|m IH]; intros i0 Hi0 Hm.
  - simpl. rewrite Nat.add_0_r. reflexivity.
  - rewrite range_down_S, for_each_app.
    replace (i0 + S m)%nat with (S i0 + m)%nat by lia.
    rewrite IH by lia. simpl.
    rewrite divided_diff_update_table by (auto; lia). reflexivity.
Qed.

Lemma outer_loop_table (xs ys : list Q) :
  pairwise_distinct xs = true ->
  forall m j0, (j0 + m < length xs)%nat ->
    for_each (seq (S j0) m)
             (fun j coef =>
                for_each (range_down (length xs) j)
                         (fun i coef => divided_diff_update xs j i coef) coef)
             (table_after xs ys (length xs) j0)
    = Ok (table_after xs ys (length xs) (j0 + m)).
Proof.
  intro Hd. induction m as [|m IH]; intros j0 Hm.
  - simpl. rewrite Nat.add_0_r. reflexivity.
  - assert (Hin : for_each (range_down (length xs) (S j0))
                   (fun i coef => divided_diff_update xs (S j0) i coef)
                   (table_after xs ys (length xs) j0)
                 = Ok (table_after xs ys (length xs) (S j0))).
    { unfold range_down.
      rewrite <- table_during_start, <- table_during_end.
      pose proof (inner_loop_table xs ys (S j0) Hd ltac:(lia)
                    (length xs - S j0) (S j0) ltac:(lia) ltac:(lia)) as H.
      replace (S j0 + (length xs - S j0))%nat with (length xs) in H by lia.
      exact H. }
    cbn [seq for_each]. rewrite Hin. cbn [bind].
    replace (j0 + S m)%nat with (S j0 + m)%nat by lia.
    apply IH. lia.
Qed.

(** With pairwise distinct nodes and as many values as nodes,
    [newton_divided_diff] returns the divided differences
    [dd xs ys i 0] of the leading nodes. *)
Lemma newton_divided_diff_table (xs ys : list Q) :
  pairwise_distinct xs = true ->
  length xs = length ys ->
  newton_divided_diff xs ys
  = Ok (map (fun i => dd xs ys i 0) (seq 0 (length xs))).
Proof.
  intros Hd Hlen. unfold newton_divided_diff, range_up.
  destruct (length xs) as [|n] eqn:En.
  - simpl. destruct ys; [reflexivity | discriminate].
  - rewrite <- (table_after_0 xs ys) at 1. rewrite <- Hlen, <- En.
    rewrite outer_loop_table by (auto; lia).
    f_equal. unfold table_after. apply map_ext_in. intros i Hi.
    apply in_seq in Hi. apply table_entry_low. lia.
Qed.

(** ** The Newton form interpolates *)

Section NewtonForm.
Variables xs ys : list Q.
Hypothesis distinct : pairwise_distinct xs = true.

Let x (i : nat) : Q := nth i xs 0.







End NewtonForm.

(** ** Horner evaluation *)

Lemma horner_loop (xs ys : list Q) (t : Q) :
  forall k r, (k < length xs)%nat ->
    exists v,
      for_each (rev (seq 0 k))
               (horner_update xs (map (fun i => dd xs ys i 0) (seq 0 (length xs))) t)
               r = Ok v /\
      v - r * omega xs 0 k t
      == newton_sum xs ys 0 k t - dd xs ys k 0 * omega xs 0 k t.
Proof.
  induction k as [|k IH]; intros r Hk.
  - exists r. split; [reflexivity|]. simpl. ring.
  - rewrite rev_seq_S. cbn [for_each]. unfold horner_update at 1.
    rewrite getitem_nth by lia. rewrite getitem_map_seq by lia.
    cbn [bind Nat.add].
    destruct (IH (r * (t - nth k xs 0) + dd xs ys k 0) ltac:(lia))
      as [v [Hv Hval]].
    exists v. split; [exact Hv|].
    change (newton_sum xs ys 0 (S k) t)
      with (newton_sum xs ys 0 k t + dd xs ys (S k) 0 * omega xs 0 (S k) t).
    change (omega xs 0 (S k) t)
      with (omega xs 0 k t * (t - nth (0 + k) xs 0)).
    cbn [Nat.add].
    set (W := omega xs 0 k t) in *.
    set (N := newton_sum xs ys 0 k t) in *.
    assert (Hv' : v == N - dd xs ys k 0 * W
                       + (r * (t - nth k xs 0) + dd xs ys k 0) * W) by lra.
    rewrite Hv'. ring.
Qed.

(** With pairwise distinct nodes and as many values as nodes, the Horner
    loop returns the value of the Newton form through all the points. *)
Lemma newton_horner_value (xs ys : list Q) (t : Q) :
  pairwise_distinct xs = true ->
  length xs = length ys ->
  (0 < length xs)%nat ->
  exists r, newton_horner xs ys t = Ok r /\
            r == newton_sum xs ys 0 (length xs - 1) t.
Proof.
  intros Hd Hlen Hpos. unfold newton_horner.
  rewrite newton_divided_diff_table by assumption. cbn [bind].
  rewrite length_map, length_seq.
  destruct (length xs) as [|n] eqn:En; [lia|].
  assert (Hlast : get_last (map (fun i => dd xs ys i 0) (seq 0 (S n)))
                  = Ok (dd xs ys n 0)).
  { replace (get_last (map (fun i => dd xs ys i 0) (seq 0 (S n))))
      with (getitem (map (fun i => dd xs ys i 0) (seq 0 (S n))) n).
    - apply (getitem_map_seq (fun i => dd xs ys i 0)). lia.
    - cbn [seq map get_last length].
      rewrite length_map, length_seq.
      replace (S n - 1)%nat with n by lia. reflexivity. }
  rewrite Hlast. cbn [bind]. unfold range_down.
  replace (S n - 1 - 0)%nat with n by lia.
  rewrite <- En.
  destruct (horner_loop xs ys t n (dd xs ys n 0) ltac:(lia)) as [v [Hv Hval]].
  exists v. split; [exact Hv|].
  replace (length xs - 1)%nat with n by lia. lra.
Qed.

(** ** Rounding and clamping *)

Lemma round_half_even_comp (p q : Q) :
  p == q -> round_half_even p = round_half_even q.
Proof.
  intro E. unfold round_half_even.
  rewrite (Qfloor_comp p q E).
  assert (Hc : Qcompare (p - inject_Z (Qfloor q)) (1 # 2)
               = Qcompare (q - inject_Z (Qfloor q)) (1 # 2)).
  { apply Qcompare_comp; [rewrite E|]; reflexivity. }
  rewrite Hc. reflexivity.
Qed.

Lemma py_round2_comp (p q : Q) : p == q -> py_round2 p = py_round2 q.
Proof.
  intro E. unfold py_round2.
  rewrite (round_half_even_comp (p * 100) (q * 100)); [reflexivity|].
  rewrite E. reflexivity.
Qed.









(** ** Interpolation at the training points *)







(** ** The forecast scenario *)

(** C5, as stated, fails: the forecast for days 6 to 10 decreases, leaves
    the 6.5-6.9 band and falls 1.5 kWh below the linear extrapolation at
    day 10. *)
Lemma forecast_is_not_non_decreasing :
  x_used = [3; 4; 5] /\ y_used = [6.1; 6.3; 6.4] /\
  exists vs, forecasted_usage = Ok vs /\
             non_decreasing vs = false /\
             all_between 6.5 6.9 vs = false /\
             Forall (fun v => v < 6.5) vs.
Proof.
  split; [reflexivity|]. split; [reflexivity|].
  exists [6.40; 6.30; 6.10; 5.80; 5.40].
  split; [vm_compute; reflexivity|].
  split; [reflexivity|]. split; [reflexivity|].
  repeat constructor.
Qed.

(** C5, amended: with the window of the last 3 points, the forecast for
    days 6 to 10 is 6.4, 6.3, 6.1, 5.8, 5.4: a strictly decreasing sequence
    in the 5.4-6.4 range with every value non-negative. *)
Theorem forecast_days_6_to_10 :
  x_used = [3; 4; 5] /\ y_used = [6.1; 6.3; 6.4] /\
  exists vs, forecasted_usage = Ok vs /\
             Forall2 Qeq vs [6.4; 6.3; 6.1; 5.8; 5.4] /\
             strictly_decreasing vs = true /\
             all_between 5.4 6.4 vs = true /\
             Forall (fun v => 0 <= v) vs.
Proof.
  split; [reflexivity|]. split; [reflexivity|].
  exists [6.40; 6.30; 6.10; 5.80; 5.40].
  split; [vm_compute; reflexivity|].
  split; [repeat constructor|].
  split; [reflexivity|]. split; [reflexivity|].
  repeat constructor; discriminate.
Qed.

(** ** Bisection: the bracket *)

Lemma half_mul (p : Q) : p / 2 == p * (1 # 2).
Proof. field. Qed.

Lemma pow2_S (n : nat) : pow2 (S n) == 2 * pow2 n.
Proof.
  unfold pow2. rewrite Nat2Z.inj_succ, Z.pow_succ_r by lia.
  rewrite inject_Z_mult. reflexivity.
Qed.

Lemma pow2_ge_1 (n : nat) : 1 <= pow2 n.
Proof.
  induction n as [|n IH]; [discriminate | rewrite pow2_S; lra].
Qed.

Lemma bisect_loop_S (fuel : nat) (f : Q -> Q) (a b : Q) :
  bisect_loop (S fuel) f a b =
  if Qlt_le_dec tol (b - a) then
    bisect_loop fuel f (fst (bisect_step f a b)) (snd (bisect_step f a b))
  else Some (a, b).
Proof.
  cbn [bisect_loop]. destruct (bisect_step f a b); reflexivity.
Qed.





(** The budget does not influence the value. *)
Lemma bisect_loop_deterministic (f : Q -> Q) :
  forall n m a b r r',
    bisect_loop n f a b = Some r -> bisect_loop m f a b = Some r' -> r = r'.
Proof.
  induction n as [|n IH]; intros m a b r r' Hn Hm; [discriminate Hn|].
  destruct m as [|m]; [discriminate Hm|].
  rewrite bisect_loop_S in Hn, Hm.
  destruct (Qlt_le_dec tol (b - a)).
  - eapply IH; eassumption.
  - congruence.
Qed.




(** ** Bisection: the estimate *)

Lemma estimate_days_remaining_inv
      (fuel : nat) (balance : Q) (cost : Q -> Q) (max_days r : Q) :
  estimate_days_remaining fuel balance cost max_days = Some r ->
  exists a b,
    bisect_loop fuel (fun t => balance - cost t) 0 max_days = Some (a, b) /\
    r = (a + b) / 2.
Proof.
  unfold estimate_days_remaining.
  destruct (bisect_loop fuel (fun t => balance - cost t) 0 max_days)
    as [[a b]|]; intro H; [|discriminate H].
  injection H as <-. exists a, b. split; reflexivity.
Qed.








(** C2 at a failing input: with [k = 1], [B = 15] and [max_days = 30] the
    first midpoint is the root itself; [f(mid) * f(a) < 0] is false there
    and stays false afterwards, and the value returned is 29.996, almost 15
    days away from [B / k]. *)
Theorem estimate_days_remaining_exact_midpoint :
  0 < 15 / 1 /\ 15 / 1 < 30 /\
  estimate_days_remaining 13 15 (fun t => 1 * t) 30 = Some (245730 # 8192) /\
  estimate_days_remaining 12 15 (fun t => 1 * t) 30 = None /\
  14.99 < Qabs ((245730 # 8192) - 15 / 1).
Proof.
  split; [reflexivity|]. split; [reflexivity|].
  split; [vm_compute; reflexivity|].
  split; [vm_compute; reflexivity | reflexivity].
Qed.

(** ** The end-to-end scenario *)



(** ** Golden-section search *)

(** [sqrt5] is the binary64 number nearest to the square root of 5: the
    half-way points to its two neighbours (one unit in the last place is
    [2^-51] between 2 and 4) square to either side of 5. *)
Lemma sqrt5_nearest_double :
  let half_ulp := 1 # (2 ^ 52) in
  (sqrt5 - half_ulp) * (sqrt5 - half_ulp) < 5 /\
  5 < (sqrt5 + half_ulp) * (sqrt5 + half_ulp).
Proof. split; reflexivity. Qed.

Lemma gr_value : gr == 910872158600853 # 562949953421312.
Proof. reflexivity. Qed.




Section GoldenRatio.
Variable g : Q.
Hypothesis g_gt_1 : 1 < g.
Variable f : Q -> Q.
Variable tolerance : Q.






Hypothesis tolerance_pos : 0 < tolerance.




End GoldenRatio.

(** ** Termination of the two searches *)




(** ** Bisection on a linear cost, away from the grid

    For [cost(t) = k * t] the loop brackets the root [B / k] as long as no
    midpoint falls on it. The midpoints are the grid points
    [max_days * j / 2^i]. *)

Section LinearCost.
Variables k B w : Q.
Hypothesis k_pos : 0 < k.
Hypothesis off_grid :
  forall i j : nat, ~ B == k * (w * inject_Z (Z.of_nat j) / pow2 i).

Let f (t : Q) : Q := B - k * t.

Lemma pow2_nonzero (i : nat) : ~ pow2 i == 0.
Proof. pose proof (pow2_ge_1 i). lra. Qed.

Lemma bisect_loop_linear :
  forall n i j a b a' b',
    a == w * inject_Z (Z.of_nat j) / pow2 i ->
    b == w * (inject_Z (Z.of_nat j) + 1) / pow2 i ->
    k * a < B -> B < k * b ->
    bisect_loop n f a b = Some (a', b') ->
    k * a' < B /\ B < k * b' /\ b' - a' <= tol.
Proof.
  induction n as [|n IH]; intros i j a b a' b' Ha Hb Hlo Hhi H;
    [discriminate H|].
  rewrite bisect_loop_S in H.
  destruct (Qlt_le_dec tol (b - a)) as [Hgt|Hle].
  - assert (Hmid : (a + b) / 2
                   == w * inject_Z (Z.of_nat (2 * j + 1)) / pow2 (S i)).
    { rewrite Ha, Hb, pow2_S, Nat2Z.inj_add, Nat2Z.inj_mul.
      rewrite inject_Z_plus, inject_Z_mult.
      change (inject_Z (Z.of_nat 2)) with 2.
      change (inject_Z (Z.of_nat 1)) with 1.
      field. apply pow2_nonzero. }
    assert (Hstrict : ~ B == k * ((a + b) / 2)).
    { rewrite Hmid. apply off_grid. }
    unfold bisect_step in H.
    destruct (Qlt_le_dec (f ((a + b) / 2) * f a) 0) as [Hneg|Hpos];
      cbn [fst snd] in H; unfold f in Hneg || unfold f in Hpos.
    + apply (IH (S i) (2 * j)%nat a ((a + b) / 2) a' b'); try assumption.
      * rewrite Ha, pow2_S, Nat2Z.inj_mul, inject_Z_mult.
        change (inject_Z (Z.of_nat 2)) with 2.
        field. apply pow2_nonzero.
      * rewrite Hmid, Nat2Z.inj_add, inject_Z_plus.
        change (inject_Z (Z.of_nat 1)) with 1. reflexivity.
      * nra.
    + apply (IH (S i) (2 * j + 1)%nat ((a + b) / 2) b a' b');
        try assumption.
      * rewrite Hb, pow2_S, Nat2Z.inj_add, Nat2Z.inj_mul.
        rewrite inject_Z_plus, inject_Z_mult.
        change (inject_Z (Z.of_nat 2)) with 2.
        change (inject_Z (Z.of_nat 1)) with 1.
        field. apply pow2_nonzero.
      * assert (Hge : k * ((a + b) / 2) <= B) by nra.
        destruct (Qlt_le_dec (k * ((a + b) / 2)) B) as [Hlt|Hge'];
          [exact Hlt|].
        exfalso. apply Hstrict. lra.
  - injection H as <- <-. repeat split; assumption.
Qed.

Hypothesis root_inside : 0 < B /\ B < k * w.

(** Away from the grid the estimate is within half the tolerance of
    [B / k]. *)
Lemma estimate_days_remaining_linear (fuel : nat) (r : Q) :
  estimate_days_remaining fuel B (fun t => k * t) w = Some r ->
  Qabs (r - B / k) <= tol / 2.
Proof.
  intro H.
  destruct (estimate_days_remaining_inv _ _ _ _ _ H) as [a [b [Hl ->]]].
  destruct root_inside as [HB Hw].
  destruct (bisect_loop_linear fuel 0 0 0 w a b) as [H1 [H2 H3]];
    try exact Hl.
  - change (inject_Z (Z.of_nat 0)) with 0. change (pow2 0) with 1. field.
  - change (inject_Z (Z.of_nat 0)) with 0. change (pow2 0) with 1. field.
  - lra.
  - exact Hw.
  - assert (E : B == k * (B / k)) by (field; lra).
    set (rho := B / k) in *.
    assert (Ha : a < rho) by nra.
    assert (Hb : rho < b) by nra.
    rewrite !half_mul. unfold tol in *.
    apply Qabs_case; intro; lra.
Qed.

End LinearCost.

(** The end-to-end scenario is off the grid: [50 / 9.472 = 3125 / 592] and
    37 divides 592 but no [3125 * 2^i]. *)
Lemma scenario_off_grid (i j : nat) :
  ~ BALANCE_GHS == daily_cost * (30 * inject_Z (Z.of_nat j) / pow2 i).
Proof.
  intro H.
  assert (Hp : ~ pow2 i == 0) by (pose proof (pow2_ge_1 i); lra).
  assert (E : BALANCE_GHS * pow2 i == daily_cost * 30 * inject_Z (Z.of_nat j)).
  { rewrite H. field. exact Hp. }
  assert (Ed : daily_cost == 9.472) by reflexivity.
  rewrite Ed in E. unfold BALANCE_GHS, pow2 in E.
  assert (Ez : (3125 * 2 ^ Z.of_nat i = 37 * (480 * Z.of_nat j))%Z).
  { unfold Qeq, Qmult, inject_Z in E. cbn [Qnum Qden] in E. lia. }
  assert (Hdiv : forall n : nat, ~ (37 | 2 ^ Z.of_nat n)%Z).
  { induction n as [|n IH].
    - intros [q Hq]. simpl in Hq. lia.
    - intro Hd. apply IH.
      rewrite Nat2Z.inj_succ, Z.pow_succ_r in Hd by lia.
      apply (Z.gauss 37 2); [exact Hd | reflexivity]. }
  apply (Hdiv i).
  apply (Z.gauss 37 3125); [|reflexivity].
  exists (480 * Z.of_nat j)%Z. lia.
Qed.

Lemma estimated_days_near_root (fuel : nat) (r : Q) :
  estimated_days fuel = Some r ->
  Qabs (r - BALANCE_GHS / daily_cost) <= tol / 2.
Proof.
  apply (estimate_days_remaining_linear daily_cost BALANCE_GHS 30).
  - reflexivity.
  - exact scenario_off_grid.
  - split; reflexivity.
Qed.


(** * Further properties *)

(** ** Outcomes of the divided-difference loops *)

Lemma length_replace_nth {A : Type} (l : list A) (i : nat) (v : A) :
  length (replace_nth l i v) = length l.
Proof.
  revert i. induction l as [|h t IH]; intro i; [reflexivity|].
  destruct i as [|i]; simpl; [reflexivity | rewrite IH; reflexivity].
Qed.

(** A loop whose body either succeeds, keeping [I], or divides by zero:
    it runs to the end exactly when every index is [good]. *)
Lemma for_each_outcome {S : Type} (I : S -> Prop) (good : nat -> Prop)
      (idx : list nat) (body : nat -> S -> result S) :
  (forall i s, In i idx -> I s ->
     (good i /\ exists s', body i s = Ok s' /\ I s') \/
     (~ good i /\ body i s = Raise ZeroDivisionError)) ->
  forall s, I s ->
    (Forall good idx /\ exists s', for_each idx body s = Ok s' /\ I s') \/
    (~ Forall good idx /\ for_each idx body s = Raise ZeroDivisionError).
Proof.
  induction idx as [|i idx IH]; intros Hbody s Hs.
  - left. split; [constructor | exists s; split; [reflexivity | exact Hs]].
  - cbn [for_each].
    destruct (Hbody i s (or_introl eq_refl) Hs)
      as [[Hg [s' [Hb Hs']]] | [Hng Hb]]; rewrite Hb; cbn [bind].
    + destruct (IH (fun k t Hk => Hbody k t (or_intror Hk)) s' Hs')
        as [[Hall Hok] | [Hnall Hr]].
      * left. split; [constructor; assumption | exact Hok].
      * right. split; [|exact Hr].
        intro Hall. apply Hnall. inversion Hall; assumption.
    + right. split; [|reflexivity].
      intro Hall. apply Hng. inversion Hall; assumption.
Qed.

Lemma divided_diff_update_outcome (xs : list Q) (j i : nat) (coef : list Q) :
  (1 <= j <= i)%nat -> (i < length xs)%nat -> (length xs <= length coef)%nat ->
  (~ nth i xs 0 == nth (i - j) xs 0 /\
   exists coef', divided_diff_update xs j i coef = Ok coef' /\
                 length coef' = length coef) \/
  (nth i xs 0 == nth (i - j) xs 0 /\
   divided_diff_update xs j i coef = Raise ZeroDivisionError).
Proof.
  intros Hj Hi Hlen. unfold divided_diff_update.
  rewrite !getitem_nth by lia. cbn [bind]. unfold py_div.
  destruct (Qeq_bool (nth i xs 0 - nth (i - j) xs 0) 0) eqn:E.
  - right. apply Qeq_bool_iff in E. split; [lra | reflexivity].
  - left. apply Qeq_bool_neq in E. split; [intro H; apply E; lra|].
    cbn [bind]. unfold setitem.
    destruct (Nat.ltb_spec i (length coef)); [|lia].
    eexists. split; [reflexivity | apply length_replace_nth].
Qed.

(** [newton_divided_diff] on at least as many values as nodes: it returns
    a list as long as [ys] when all the differences [x[i] - x[i - j]] it
    divides by are non-zero, and raises [ZeroDivisionError] otherwise. *)
Lemma newton_divided_diff_outcome (xs ys : list Q) :
  (length xs <= length ys)%nat ->
  let good j i := ~ nth i xs 0 == nth (i - j) xs 0 in
  let all_good :=
    Forall (fun j => Forall (good j) (range_down (length xs) j))
           (range_up 1 (length xs)) in
  (all_good /\ exists coef, newton_divided_diff xs ys = Ok coef /\
                            length coef = length ys) \/
  (~ all_good /\ newton_divided_diff xs ys = Raise ZeroDivisionError).
Proof.
  intros Hlen good all_good. unfold newton_divided_diff.
  apply (for_each_outcome (fun c => length c = length ys)); [|reflexivity].
  intros j coef Hj Hc. unfold range_up in Hj. apply in_seq in Hj.
  destruct (for_each_outcome (fun c => length c = length ys) (good j)
              (range_down (length xs) j)
              (fun i c => divided_diff_update xs j i c)) with (s := coef)
    as [[Hall Hok] | [Hnall Hr]]; [|exact Hc|left; auto|right; auto].
  intros i c Hi Hlc. unfold range_down in Hi.
  apply in_rev in Hi. apply in_seq in Hi.
  destruct (divided_diff_update_outcome xs j i c) as [[Hg [c' [Hu Hl]]] | [Hg Hu]];
    try lia.
  - left. split; [exact Hg|]. exists c'. split; [exact Hu | congruence].
  - right. split; [intro Hn; apply Hn; exact Hg | exact Hu].
Qed.

Lemma nth_pairwise_distinct (xs : list Q) :
  (forall i k, (i < k < length xs)%nat -> ~ nth i xs 0 == nth k xs 0) ->
  pairwise_distinct xs = true.
Proof.
  induction xs as [|h t IH]; intro H; [reflexivity|].
  cbn [pairwise_distinct]. apply andb_true_intro. split.
  - apply forallb_forall. intros v Hv.
    destruct (In_nth t v 0 Hv) as [k [Hk Hnth]].
    apply negb_true_iff. destruct (Qeq_bool h v) eqn:E; [|reflexivity].
    exfalso. apply Qeq_bool_iff in E.
    apply (H 0%nat (S k)); [simpl; lia|]. simpl. rewrite Hnth. exact E.
  - apply IH. intros i k Hik.
    apply (H (S i) (S k)). simpl. lia.
Qed.

Lemma all_good_pairwise_distinct (xs : list Q) :
  Forall (fun j => Forall (fun i => ~ nth i xs 0 == nth (i - j) xs 0)
                          (range_down (length xs) j))
         (range_up 1 (length xs)) <->
  pairwise_distinct xs = true.
Proof.
  split.
  - intro Hall. apply nth_pairwise_distinct. intros i k Hik Heq.
    rewrite Forall_forall in Hall.
    assert (Hj : In (k - i)%nat (range_up 1 (length xs))).
    { unfold range_up. apply in_seq. lia. }
    specialize (Hall _ Hj). rewrite Forall_forall in Hall.
    assert (Hk : In k (range_down (length xs) (k - i))).
    { unfold range_down. apply -> in_rev. apply in_seq. lia. }
    apply (Hall _ Hk).
    replace (k - (k - i))%nat with i by lia. symmetry. exact Heq.
  - intro Hd. apply Forall_forall. intros j Hj.
    unfold range_up in Hj. apply in_seq in Hj.
    apply Forall_forall. intros i Hi.
    unfold range_down in Hi. apply in_rev in Hi. apply in_seq in Hi.
    intro Heq. apply (pairwise_distinct_nth xs Hd (i - j) i); [lia|].
    symmetry. exact Heq.
Qed.

(** ** Malformed interpolation data *)

(** X1: with as many readings as days, two equal days make both
    [newton_divided_diff] and [newton_interpolation] raise
    [ZeroDivisionError], whatever the readings and the target day. *)
Theorem newton_duplicate_day_raises (xs ys : list Q) (t : Q) :
  length xs = length ys ->
  pairwise_distinct xs = false ->
  newton_divided_diff xs ys = Raise ZeroDivisionError /\
  newton_interpolation xs ys t = Raise ZeroDivisionError.
Proof.
  intros Hlen Hdup.
  assert (Hdd : newton_divided_diff xs ys = Raise ZeroDivisionError).
  { destruct (newton_divided_diff_outcome xs ys) as [[Hall _] | [_ Hr]];
      [lia | | exact Hr].
    apply all_good_pairwise_distinct in Hall. congruence. }
  split; [exact Hdd|].
  unfold newton_interpolation, newton_horner. rewrite Hdd. reflexivity.
Qed.

Lemma newton_duplicate_day_raises_witness :
  length [1; 2; 1] = length [5; 6; 7] /\
  pairwise_distinct [1; 2; 1] = false /\
  newton_divided_diff [1; 2; 1] [5; 6; 7] = Raise ZeroDivisionError /\
  newton_interpolation [1; 2; 1] [5; 6; 7] 4 = Raise ZeroDivisionError.
Proof.
  split; [reflexivity|]. split; [reflexivity|].
  apply (newton_duplicate_day_raises [1; 2; 1] [5; 6; 7] 4); reflexivity.
Defined.

(** X2: with fewer readings than days, [newton_interpolation] raises
    [IndexError], whatever the values and the target day. *)
Theorem newton_missing_readings_raise (xs ys : list Q) (t : Q) :
  (length ys < length xs)%nat ->
  newton_interpolation xs ys t = Raise IndexError.
Proof.
  intro Hlen. unfold newton_interpolation, newton_horner.
  destruct xs as [|x0 [|x1 xs]]; [simpl in Hlen; lia | |].
  - destruct ys; [reflexivity | simpl in Hlen; lia].
  - assert (Hdd : newton_divided_diff (x0 :: x1 :: xs) ys = Raise IndexError).
    { unfold newton_divided_diff, range_up, range_down.
      cbn [length]. replace (S (S (length xs)) - 1)%nat with (S (length xs)) by lia.
      cbn [seq for_each].
      replace (S (S (length xs)) - 1)%nat with (S (length xs)) by lia.
      rewrite rev_seq_S. cbn [for_each]. unfold divided_diff_update at 1.
      assert (Hg : getitem ys (1 + length xs) = Raise IndexError).
      { unfold getitem.
        replace (nth_error ys (1 + length xs)) with (@None Q); [reflexivity|].
        symmetry. apply nth_error_None. simpl in Hlen. lia. }
      rewrite Hg. reflexivity. }
    rewrite Hdd. reflexivity.
Qed.

Lemma newton_missing_readings_raise_witness :
  (length [5; 6] < length [1; 2; 3])%nat /\
  newton_interpolation [1; 2; 3] [5; 6] 4 = Raise IndexError.
Proof.
  split; [simpl; lia|].
  apply (newton_missing_readings_raise [1; 2; 3] [5; 6] 4). simpl; lia.
Defined.

Lemma newton_divided_diff_long (xs ys : list Q) :
  pairwise_distinct xs = true ->
  (length xs <= length ys)%nat ->
  exists coef, newton_divided_diff xs ys = Ok coef /\
               length coef = length ys.
Proof.
  intros Hd Hlen.
  destruct (newton_divided_diff_outcome xs ys Hlen) as [[_ Hok] | [Hn _]];
    [exact Hok|].
  exfalso. apply Hn. apply all_good_pairwise_distinct. exact Hd.
Qed.

Lemma get_last_nonempty (l : list Q) :
  (0 < length l)%nat -> get_last l = Ok (nth (length l - 1) l 0).
Proof.
  intro H. destruct l as [|h t]; [simpl in H; lia|].
  unfold get_last. apply getitem_nth. simpl. lia.
Qed.

(** X3: with two or more readings beyond the days, and pairwise distinct
    days, the coefficient table is built without error but the Horner loop
    indexes [x_data] past its end: [newton_interpolation] raises
    [IndexError]. *)
Theorem newton_surplus_readings_raise (xs ys : list Q) (t : Q) :
  pairwise_distinct xs = true ->
  (length xs + 2 <= length ys)%nat ->
  newton_interpolation xs ys t = Raise IndexError.
Proof.
  intros Hd Hlen.
  destruct (newton_divided_diff_long xs ys Hd ltac:(lia)) as [coef [Hc Hl]].
  unfold newton_interpolation, newton_horner. rewrite Hc. cbn [bind].
  rewrite get_last_nonempty by lia. cbn [bind]. unfold range_down.
  replace (length coef - 1 - 0)%nat with (S (length coef - 2)) by lia.
  rewrite rev_seq_S. cbn [for_each Nat.add]. unfold horner_update at 1.
  assert (Hg : getitem xs (length coef - 2) = Raise IndexError).
  { unfold getitem.
    replace (nth_error xs (length coef - 2)) with (@None Q); [reflexivity|].
    symmetry. apply nth_error_None. lia. }
  rewrite Hg. reflexivity.
Qed.

Lemma newton_surplus_readings_raise_witness :
  pairwise_distinct [1; 2] = true /\
  (length [1; 2] + 2 <= length [5; 6; 7; 8])%nat /\
  newton_interpolation [1; 2] [5; 6; 7; 8] 4 = Raise IndexError.
Proof.
  split; [reflexivity|]. split; [simpl; lia|].
  apply (newton_surplus_readings_raise [1; 2] [5; 6; 7; 8] 4);
    [reflexivity | simpl; lia].
Defined.

Lemma horner_loop_ok (xs coef : list Q) (t : Q) :
  forall k r, (k <= length xs)%nat -> (k <= length coef)%nat ->
    exists v, for_each (rev (seq 0 k)) (horner_update xs coef t) r = Ok v.
Proof.
  induction k as [|k IH]; intros r Hx Hc.
  - exists r. reflexivity.
  - rewrite rev_seq_S. cbn [for_each Nat.add]. unfold horner_update at 1.
    rewrite !getitem_nth by lia. cbn [bind]. apply IH; lia.
Qed.

(** X4: with exactly one reading more than days, and pairwise distinct
    days, no length check stops the call: [newton_interpolation] returns a
    value. *)
Theorem newton_one_surplus_reading_accepted (xs ys : list Q) (t : Q) :
  pairwise_distinct xs = true ->
  length ys = S (length xs) ->
  exists v, newton_interpolation xs ys t = Ok v.
Proof.
  intros Hd Hlen.
  destruct (newton_divided_diff_long xs ys Hd ltac:(lia)) as [coef [Hc Hl]].
  unfold newton_interpolation, newton_horner. rewrite Hc. cbn [bind].
  rewrite get_last_nonempty by lia. cbn [bind]. unfold range_down.
  destruct (horner_loop_ok xs coef t (length coef - 1 - 0)
              (nth (length coef - 1) coef 0)) as [v Hv]; try lia.
  rewrite Hv. cbn [bind]. eauto.
Qed.

Lemma newton_one_surplus_reading_accepted_witness :
  pairwise_distinct [1; 2] = true /\
  length [5; 6; 7] = S (length [1; 2]) /\
  exists v, newton_interpolation [1; 2] [5; 6; 7] 4 = Ok v.
Proof.
  split; [reflexivity|]. split; [reflexivity|].
  apply (newton_one_surplus_reading_accepted [1; 2] [5; 6; 7] 4); reflexivity.
Defined.

(** ** The coefficients *)

(** X5: with pairwise distinct days and as many readings as days, the
    in-place loops of [newton_divided_diff] return the divided differences
    of the leading nodes: entry [i] is the divided difference of order [i]
    on [xs[0..i]], as the recursive definition [dd] gives it; the list is as
    long as the input and its first entry is [ys[0]]. *)
Theorem newton_divided_diff_coefficients (xs ys : list Q) :
  pairwise_distinct xs = true ->
  length xs = length ys ->
  exists coef,
    newton_divided_diff xs ys = Ok coef /\
    length coef = length ys /\
    (forall i, (i < length xs)%nat -> nth i coef 0 = dd xs ys i 0) /\
    nth 0 coef 0 = nth 0 ys 0.
Proof.
  intros Hd Hlen.
  exists (map (fun i => dd xs ys i 0) (seq 0 (length xs))).
  split; [apply newton_divided_diff_table; assumption|].
  split; [rewrite length_map, length_seq; exact Hlen|].
  assert (Hnth : forall i, (i < length xs)%nat ->
            nth i (map (fun i => dd xs ys i 0) (seq 0 (length xs))) 0
            = dd xs ys i 0).
  { intros i Hi.
    pose proof (getitem_map_seq (fun i => dd xs ys i 0) (length xs) i Hi) as Hg.
    rewrite getitem_nth in Hg by (rewrite length_map, length_seq; exact Hi).
    injection Hg as Hg. exact Hg. }
  split; [exact Hnth|].
  destruct xs as [|x0 xs]; [destruct ys; [reflexivity | discriminate]|].
  rewrite Hnth by (simpl; lia). reflexivity.
Qed.

Lemma newton_divided_diff_coefficients_witness :
  pairwise_distinct x_used = true /\
  length x_used = length y_used /\
  exists coef,
    newton_divided_diff x_used y_used = Ok coef /\
    length coef = length y_used /\
    (forall i, (i < length x_used)%nat -> nth i coef 0 = dd x_used y_used i 0) /\
    nth 0 coef 0 = nth 0 y_used 0.
Proof.
  split; [reflexivity|]. split; [reflexivity|].
  apply (newton_divided_diff_coefficients x_used y_used); reflexivity.
Defined.

(** ** Linear histories *)


Section LinearData.
Variables (m c : Q) (xs ys : list Q).
Hypothesis distinct : pairwise_distinct xs = true.
Hypothesis on_line :
  forall i, (i < length xs)%nat -> nth i ys 0 == m * nth i xs 0 + c.




End LinearData.



(** ** Bisection: what the bracket keeps *)






(** ** Bisection: the number of passes *)




(** ** Bisection: where the cost function is evaluated *)




(** ** Bisection: a balance that is already spent, or never spent *)




(** ** Golden-section search: what the bracket keeps *)


Section GoldenBracket.
Variable g : Q.
Hypothesis g_gt_1 : 1 < g.
Hypothesis g_lt_2 : g < 2.
Variable f : Q -> Q.
Variable tolerance : Q.












End GoldenBracket.

(** ** Golden-section search: the value returned *)












(** ** The reduction objective *)

(** X15: [reduction_to_life(r)] raises [ZeroDivisionError] exactly at
    [r = 1], where the reduced usage is zero; everywhere else it returns
    [-BALANCE_GHS / (reduced_daily * COST_PER_KWH)]. *)
Theorem reduction_to_life_singular_at_1 (r : Q) :
  call_reduction_to_life r =
  if Qeq_bool r 1 then Raise ZeroDivisionError else Ok (reduction_to_life r).
Proof.
  unfold call_reduction_to_life, py_div.
  assert (Ed : daily_kwh * (1 - r) * COST_PER_KWH == 9.472 * (1 - r)).
  { unfold COST_PER_KWH. setoid_replace daily_kwh with 5.92 by reflexivity.
    ring. }
  destruct (Qeq_bool r 1) eqn:E1;
    destruct (Qeq_bool (daily_kwh * (1 - r) * COST_PER_KWH) 0) eqn:E2;
    try reflexivity; exfalso.
  - apply Qeq_bool_iff in E1. apply Qeq_bool_neq in E2.
    apply E2. rewrite Ed. lra.
  - apply Qeq_bool_neq in E1. apply Qeq_bool_iff in E2.
    apply E1. rewrite Ed in E2. lra.
Qed.

(** ** Daily usage of valid appliances *)

(** X16: when no appliance has negative power or negative hours,
    [compute_daily_kwh] is non-negative and adding one more such appliance
    never lowers it. *)
Theorem compute_daily_kwh_nonneg (appliances : list appliance) :
  forallb (fun a => negb (invalid_appliance a)) appliances = true ->
  0 <= compute_daily_kwh appliances /\
  forall a, invalid_appliance a = false ->
            compute_daily_kwh appliances <= compute_daily_kwh (a :: appliances).
Proof.
  assert (Hone : forall name p h,
             invalid_appliance (name, p, h) = false -> 0 <= p * h / 1000).
  { intros name p h Hv. unfold invalid_appliance in Hv.
    destruct (Qlt_le_dec p 0); [discriminate Hv|].
    destruct (Qlt_le_dec h 0); [discriminate Hv|].
    assert (Hph : 0 <= p * h) by (apply Qmult_le_0_compat; assumption).
    assert (E : p * h / 1000 == p * h * (1 # 1000)) by field.
    rewrite E. lra. }
  intro Hall. split.
  - induction appliances as [|[[name p] h] rest IH]; [discriminate|].
    cbn [forallb] in Hall. apply andb_prop in Hall. destruct Hall as [Ha Hr].
    apply negb_true_iff in Ha.
    rewrite compute_daily_kwh_cons.
    pose proof (Hone name p h Ha). pose proof (IH Hr). lra.
  - intros [[name p] h] Ha. rewrite compute_daily_kwh_cons.
    pose proof (Hone name p h Ha). lra.
Qed.

Lemma compute_daily_kwh_nonneg_witness :
  forallb (fun a => negb (invalid_appliance a)) APPLIANCES = true /\
  0 <= compute_daily_kwh APPLIANCES /\
  forall a, invalid_appliance a = false ->
            compute_daily_kwh APPLIANCES <= compute_daily_kwh (a :: APPLIANCES).
Proof.
  split; [reflexivity|].
  apply (compute_daily_kwh_nonneg APPLIANCES). reflexivity.
Defined.

(** ** The forecast driver *)

Lemma newton_horner_window (t : Q) :
  exists r, newton_horner x_used y_used t = Ok r /\ r == forecast_poly t.
Proof.
  destruct (newton_horner_value x_used y_used t) as [r [Hr Hval]];
    [reflexivity | reflexivity | vm_compute; lia |].
  exists r. split; [exact Hr|]. rewrite Hval.
  change x_used with [3; 4; 5]. change y_used with [6.1; 6.3; 6.4].
  unfold forecast_poly. cbn [length Nat.sub newton_sum omega dd nth Nat.add].
  field.
Qed.

Lemma newton_interpolation_window (t : Q) :
  exists v, newton_interpolation x_used y_used t = Ok v /\
            v == py_max0 (py_round2 (forecast_poly t)).
Proof.
  destruct (newton_horner_window t) as [r [Hr Hval]].
  exists (py_max0 (py_round2 r)). unfold newton_interpolation.
  rewrite Hr. cbn [bind]. split; [reflexivity|].
  rewrite (py_round2_comp r (forecast_poly t) Hval). reflexivity.
Qed.

(** X17: for every list of days, the forecast driver returns one value per
    requested day, in the order of the days; the value for day [d] is the
    quadratic [-0.05 d^2 + 0.55 d + 4.9] through the three window points,
    rounded to 2 decimals and clamped at 0. *)
Theorem forecast_each_day (days : list nat) :
  exists vs,
    forecast days = Ok vs /\
    Forall2 (fun d v =>
               v == py_max0 (py_round2 (forecast_poly (inject_Z (Z.of_nat d)))))
            days vs.
Proof.
  induction days as [|d days [vs [Hvs Hall]]].
  - exists []. split; [reflexivity | constructor].
  - destruct (newton_interpolation_window (inject_Z (Z.of_nat d)))
      as [v [Hv Hval]].
    exists (v :: vs). cbn [forecast]. rewrite Hv, Hvs. cbn [bind].
    split; [reflexivity | constructor; assumption].
Qed.

Lemma round_half_even_nonpos (p : Q) :
  p <= 0 -> (round_half_even p <= 0)%Z.
Proof.
  intro Hp. unfold round_half_even.
  pose proof (Qfloor_le p) as Hfl.
  assert (Hz : (Qfloor p <= 0)%Z).
  { rewrite Zle_Qle. change (inject_Z 0) with 0. lra. }
  assert (Hfrac : 0 < p - inject_Z (Qfloor p) -> (Qfloor p + 1 <= 0)%Z).
  { intro Hf.
    assert (Hlt : (Qfloor p < 0)%Z).
    { rewrite Zlt_Qlt. change (inject_Z 0) with 0. lra. }
    lia. }
  destruct (Qcompare (p - inject_Z (Qfloor p)) (1 # 2)) eqn:Ec.
  - apply <- Qeq_alt in Ec.
    destruct (Z.even (Qfloor p)); [exact Hz | apply Hfrac; lra].
  - exact Hz.
  - apply <- Qgt_alt in Ec. apply Hfrac. lra.
Qed.

(** X18: from day 17 on the quadratic of the window is negative, and the
    forecast for the day is the clamp value 0. *)
Theorem forecast_zero_from_day_17 (d : nat) :
  (17 <= d)%nat ->
  newton_interpolation x_used y_used (inject_Z (Z.of_nat d)) = Ok 0.
Proof.
  intro Hd.
  destruct (newton_horner_window (inject_Z (Z.of_nat d))) as [r [Hr Hval]].
  unfold newton_interpolation. rewrite Hr. cbn [bind]. f_equal.
  assert (Ht : 17 <= inject_Z (Z.of_nat d)).
  { change 17 with (inject_Z 17). rewrite <- Zle_Qle. lia. }
  assert (Hneg : r * 100 <= 0).
  { rewrite Hval. unfold forecast_poly.
    set (t := inject_Z (Z.of_nat d)) in *. nra. }
  pose proof (round_half_even_nonpos (r * 100) Hneg) as Hz.
  unfold py_max0, py_round2.
  destruct (Qlt_le_dec 0 (inject_Z (round_half_even (r * 100)) / 100))
    as [Hpos|Hle]; [|reflexivity].
  exfalso. rewrite Zle_Qle in Hz. change (inject_Z 0) with 0 in Hz.
  set (z := inject_Z (round_half_even (r * 100))) in *.
  assert (E : z / 100 == z * (1 # 100)) by field.
  rewrite E in Hpos. lra.
Qed.

Lemma forecast_zero_from_day_17_witness :
  (17 <= 20)%nat /\
  newton_interpolation x_used y_used (inject_Z (Z.of_nat 20)) = Ok 0.
Proof.
  split; [lia|]. apply (forecast_zero_from_day_17 20). lia.
Defined.
